(** * Parallel-File-Encryptor: the file-handling layer

    A shallow embedding of [src/app/fileHandling/IO.cpp] (the RAII wrapper
    [IO] around [std::fstream]) and of [src/app/fileHandling/ReadEnv.cpp]
    ([ReadEnv::getenv], which slurps the file [.env] into a string),
    together with the part of the run-time environment the two files talk
    to: a file system with access permissions, the table of open file
    descriptors, the console, and the [<fstream>]/[<sstream>] operations
    the code calls.

    Layout: the operating-system model ([Os]), the C++ stream library model
    ([Ios]), the repository's code ([IO_ctor], [IO_getFileStream],
    [IO_dtor], [getenv]), then the theorems. *)

From stdpp Require Import base option list strings gmap.
From Stdlib Require Import Ascii ZArith.

(** * Strings as byte sequences *)

(** A [std::string] is a sequence of [char]; Rocq's [string] is a sequence
    of 8-bit [ascii] values, so file contents are kept as they are. *)

Fixpoint str_drop (n : nat) (s : string) : string :=
  match n, s with
  | O, _ => s
  | S _, EmptyString => EmptyString
  | S n', String _ s' => str_drop n' s'
  end.

Fixpoint str_take (n : nat) (s : string) : string :=
  match n, s with
  | O, _ => EmptyString
  | S _, EmptyString => EmptyString
  | S n', String c s' => String c (str_take n' s')
  end.

(** The character written by [std::endl] (line feed, code 10). *)
Definition newline : string := String "010"%char EmptyString.

(** [needle] occurs somewhere inside [hay]. *)
Definition mentions (hay needle : string) : Prop :=
  ∃ before after : string, hay = before +:+ needle +:+ after.

(** * The operating system *)

Module Os.

(** A regular file: its bytes, and whether the running process may read
    and write it. *)
Record file := File {
  f_data : string;
  f_may_read : bool;
  f_may_write : bool
}.

(** The six [fopen] modes; the [b] suffix is kept apart as a flag. *)
Inductive fopen_mode := Mr | Mw | Ma | Mr_plus | Mw_plus | Ma_plus.

Definition wants_read (m : fopen_mode) : bool :=
  match m with Mr | Mr_plus | Mw_plus | Ma_plus => true | _ => false end.
Definition wants_write (m : fopen_mode) : bool :=
  match m with Mr => false | _ => true end.
Definition creates (m : fopen_mode) : bool :=
  match m with Mr | Mr_plus => false | _ => true end.
Definition truncates (m : fopen_mode) : bool :=
  match m with Mw | Mw_plus => true | _ => false end.
Definition appends (m : fopen_mode) : bool :=
  match m with Ma | Ma_plus => true | _ => false end.

(** An open file description: which file, the current offset, and the
    access the descriptor was opened with. *)
Record ofd := Ofd {
  ofd_path : string;
  ofd_pos : nat;
  ofd_read : bool;
  ofd_write : bool;
  ofd_append : bool
}.

Inductive errno := ENOENT | EACCES | EBADF.

(** What the process asked of the kernel, in order. *)
Inductive syscall :=
| SysOpen (path : string) (m : fopen_mode) (binary : bool) (r : errno + nat)
| SysRead (fd : nat) (count : nat)
| SysWrite (fd : nat) (count : nat)
| SysSeekEnd (fd : nat)
| SysClose (fd : nat) (r : option errno).

Record world := World {
  w_fs : gmap string file;
  w_fds : gmap nat ofd;
  w_cout : string;
  w_trace : list syscall
}.

Definition set_fs (fs : gmap string file) (w : world) : world :=
  World fs (w_fds w) (w_cout w) (w_trace w).
Definition set_fds (fds : gmap nat ofd) (w : world) : world :=
  World (w_fs w) fds (w_cout w) (w_trace w).
Definition log (e : syscall) (w : world) : world :=
  World (w_fs w) (w_fds w) (w_cout w) (w_trace w ++ [e]).
Definition print (s : string) (w : world) : world :=
  World (w_fs w) (w_fds w) (w_cout w +:+ s) (w_trace w).

Definition permitted (m : fopen_mode) (f : file) : bool :=
  (implb (wants_read m) (f_may_read f)) && (implb (wants_write m) (f_may_write f)).

(** The file-system side of [fopen]: failure, or the file system after
    the call ([w], [w+] truncate; [w], [w+], [a], [a+] create). *)
Definition open_check (path : string) (m : fopen_mode)
    (fs : gmap string file) : errno + gmap string file :=
  match fs !! path with
  | None =>
      if creates m then inr (<[path := File EmptyString true true]> fs)
      else inl ENOENT
  | Some f =>
      if permitted m f then
        inr (if truncates m
             then <[path := File EmptyString (f_may_read f) (f_may_write f)]> fs
             else fs)
      else inl EACCES
  end.

(** [fopen(path, m)]: on success an unused descriptor, at offset 0. *)
Definition fopen (path : string) (m : fopen_mode) (binary : bool)
    (w : world) : (errno + nat) * world :=
  match open_check path m (w_fs w) with
  | inl e => (inl e, log (SysOpen path m binary (inl e)) w)
  | inr fs' =>
      let fd := fresh (dom (w_fds w)) in
      let d := Ofd path 0 (wants_read m) (wants_write m) (appends m) in
      (inr fd, log (SysOpen path m binary (inr fd))
                 (set_fds (<[fd := d]> (w_fds w)) (set_fs fs' w)))
  end.

Definition file_size (path : string) (fs : gmap string file) : nat :=
  match fs !! path with
  | Some f => String.length (f_data f)
  | None => O
  end.

(** [fseek(fd, 0, SEEK_END)]. *)
Definition seek_end (fd : nat) (w : world) : bool * world :=
  match w_fds w !! fd with
  | Some d =>
      let d' := Ofd (ofd_path d) (file_size (ofd_path d) (w_fs w))
                    (ofd_read d) (ofd_write d) (ofd_append d) in
      (true, log (SysSeekEnd fd) (set_fds (<[fd := d']> (w_fds w)) w))
  | None => (false, log (SysSeekEnd fd) w)
  end.

(** Read from the current offset up to end of file; the offset ends up
    at the end of what was read. *)
Definition read_to_eof (fd : nat) (w : world) : string * world :=
  match w_fds w !! fd with
  | Some d =>
      match w_fs w !! ofd_path d with
      | Some f =>
          if ofd_read d then
            let got := str_drop (ofd_pos d) (f_data f) in
            let d' := Ofd (ofd_path d) (ofd_pos d + String.length got)
                          (ofd_read d) (ofd_write d) (ofd_append d) in
            (got, log (SysRead fd (String.length got))
                    (set_fds (<[fd := d']> (w_fds w)) w))
          else (EmptyString, log (SysRead fd O) w)
      | None => (EmptyString, log (SysRead fd O) w)
      end
  | None => (EmptyString, log (SysRead fd O) w)
  end.

(** Write [data] at the current offset (at the end in append mode). *)
Definition write (fd : nat) (data : string) (w : world) : bool * world :=
  match w_fds w !! fd with
  | Some d =>
      match w_fs w !! ofd_path d with
      | Some f =>
          if ofd_write d then
            let old := f_data f in
            let at_ := if ofd_append d then String.length old else ofd_pos d in
            let new := str_take at_ old +:+ data
                       +:+ str_drop (at_ + String.length data) old in
            let d' := Ofd (ofd_path d) (at_ + String.length data)
                          (ofd_read d) (ofd_write d) (ofd_append d) in
            (true, log (SysWrite fd (String.length data))
                     (set_fds (<[fd := d']> (w_fds w))
                        (set_fs (<[ofd_path d :=
                                     File new (f_may_read f) (f_may_write f)]> (w_fs w)) w)))
          else (false, log (SysWrite fd O) w)
      | None => (false, log (SysWrite fd O) w)
      end
  | None => (false, log (SysWrite fd O) w)
  end.

(** [fclose]: releases the descriptor; closing one that is not open is
    an error ([EBADF]) and is recorded as such. *)
Definition close (fd : nat) (w : world) : bool * world :=
  match w_fds w !! fd with
  | Some _ => (true, log (SysClose fd None) (set_fds (delete fd (w_fds w)) w))
  | None => (false, log (SysClose fd (Some EBADF)) w)
  end.

End Os.

(** * Computations: state passing with C++ exceptions *)

Inductive exn := ios_failure.

Inductive outcome (A : Type) :=
| Ok (a : A)
| Throw (e : exn).
Arguments Ok {A} a.
Arguments Throw {A} e.

Definition M (A : Type) : Type := Os.world → outcome A * Os.world.

#[global] Instance M_ret : MRet M := λ A a w, (Ok a, w).
#[global] Instance M_bind : MBind M := λ A B f m w,
  match m w with
  | (Ok a, w') => f a w'
  | (Throw e, w') => (Throw e, w')
  end.

Definition throw {A : Type} (e : exn) : M A := λ w, (Throw e, w).

(** A system call never throws; it reports through its return value. *)
Definition sys {A : Type} (call : Os.world → A * Os.world) : M A :=
  λ w, let '(a, w') := call w in (Ok a, w').

(** Leaving a block runs the destructor of the object declared in it,
    on normal exit and when an exception unwinds through it. *)
Definition at_scope_exit {A : Type} (dtor : M unit) (body : M A) : M A :=
  λ w,
    let '(r, w1) := body w in
    match dtor w1 with
    | (Ok _, w2) => (r, w2)
    | (Throw e, w2) => (match r with Ok _ => Throw e | Throw e' => Throw e' end, w2)
    end.

(** * The stream library *)

Module Ios.

Local Open Scope Z_scope.

(** [std::ios_base::openmode], a bitmask type (values of libstdc++). *)
Definition app : Z := 1.
Definition ate : Z := 2.
Definition binary : Z := 4.
Definition in_ : Z := 8.
Definition out : Z := 16.
Definition trunc : Z := 32.

(** [std::ios_base::iostate]. *)
Definition goodbit : Z := 0.
Definition badbit : Z := 1.
Definition eofbit : Z := 2.
Definition failbit : Z := 4.

(** The table of [basic_filebuf::open]: which [fopen] mode an openmode
    stands for, if any ([ate] is looked at separately). *)
Definition fopen_mode_of (mode : Z) : option (Os.fopen_mode * bool) :=
  let b := Z.testbit mode 2 in
  let k := Z.land mode (Z.lor (Z.lor in_ out) (Z.lor trunc app)) in
  if decide (k = out) then Some (Os.Mw, b)
  else if decide (k = Z.lor out trunc) then Some (Os.Mw, b)
  else if decide (k = app) then Some (Os.Ma, b)
  else if decide (k = Z.lor out app) then Some (Os.Ma, b)
  else if decide (k = in_) then Some (Os.Mr, b)
  else if decide (k = Z.lor in_ out) then Some (Os.Mr_plus, b)
  else if decide (k = Z.lor (Z.lor in_ out) trunc) then Some (Os.Mw_plus, b)
  else if decide (k = Z.lor in_ app) then Some (Os.Ma_plus, b)
  else if decide (k = Z.lor (Z.lor in_ out) app) then Some (Os.Ma_plus, b)
  else None.

(** The state every stream carries ([std::basic_ios]). *)
Record ios := MkIos { rdstate : Z; exceptions : Z }.

Definition ios_init : ios := MkIos goodbit goodbit.

(** [clear(state)]: throws [ios_base::failure] when a bit of the new
    state is enabled in the exception mask. *)
Definition clear (i : ios) (state : Z) : M ios :=
  if decide (Z.land state (exceptions i) = 0)
  then mret (MkIos state (exceptions i))
  else throw ios_failure.

Definition setstate (i : ios) (state : Z) : M ios :=
  clear i (Z.lor (rdstate i) state).

(** [std::filebuf]: open exactly when it holds a descriptor. *)
Record filebuf := MkFilebuf { fb_file : option nat }.

Definition filebuf_is_open (fb : filebuf) : bool :=
  match fb_file fb with Some _ => true | None => false end.

(** [filebuf::open]: [None] stands for the null pointer it returns on
    failure. *)
Definition filebuf_open (fb : filebuf) (s : string) (mode : Z)
    : M (option filebuf) :=
  if filebuf_is_open fb then mret None
  else
    match fopen_mode_of mode with
    | None => mret None
    | Some (m, b) =>
        r ← sys (Os.fopen s m b);
        match r with
        | inl _ => mret None
        | inr fd =>
            if Z.testbit mode 1 then
              ok ← sys (Os.seek_end fd);
              if ok : bool then mret (Some (MkFilebuf (Some fd)))
              else _ ← sys (Os.close fd); mret None
            else mret (Some (MkFilebuf (Some fd)))
        end
    end.

(** [filebuf::close]: [None] (null) when the buffer was not open. *)
Definition filebuf_close (fb : filebuf) : M (option filebuf) :=
  match fb_file fb with
  | None => mret None
  | Some fd =>
      ok ← sys (Os.close fd);
      mret (if ok : bool then Some (MkFilebuf None) else None)
  end.

(** Everything from the get position to end of file; a buffer that is
    not open is at end of file at once. *)
Definition filebuf_drain (fb : filebuf) : M string :=
  match fb_file fb with
  | None => mret EmptyString
  | Some fd => sys (Os.read_to_eof fd)
  end.

(** [std::fstream]. *)
Record fstream := MkFstream { fs_ios : ios; rdbuf : filebuf }.

(** A default-constructed stream: good state, nothing thrown on
    failure, no file. *)
Definition fstream_default : fstream :=
  MkFstream ios_init (MkFilebuf None).

Definition is_open (s : fstream) : bool := filebuf_is_open (rdbuf s).

(** [fstream::open]: [setstate(failbit)] when the buffer cannot open,
    [clear()] when it can. *)
Definition open (s : fstream) (path : string) (mode : Z) : M fstream :=
  r ← filebuf_open (rdbuf s) path mode;
  match r with
  | None => i ← setstate (fs_ios s) failbit; mret (MkFstream i (rdbuf s))
  | Some fb => i ← clear (fs_ios s) goodbit; mret (MkFstream i fb)
  end.

(** [fstream::close]. *)
Definition close (s : fstream) : M fstream :=
  r ← filebuf_close (rdbuf s);
  match r with
  | None => i ← setstate (fs_ios s) failbit; mret (MkFstream i (rdbuf s))
  | Some fb => mret (MkFstream (fs_ios s) fb)
  end.

(** [~fstream]: the buffer's destructor closes the file if it is open
    and lets nothing escape. *)
Definition fstream_dtor (s : fstream) : M unit :=
  λ w, match filebuf_close (rdbuf s) w with
       | (_, w') => (Ok tt, w')
       end.

(** Move construction: the new stream takes the file; the source is
    left not open (its other state is unspecified, here kept). *)
Definition move (s : fstream) : fstream * fstream :=
  (MkFstream (fs_ios s) (rdbuf s), MkFstream (fs_ios s) (MkFilebuf None)).

(** [ostream::write] on a file stream, unbuffered. *)
Definition write (s : fstream) (data : string) : M fstream :=
  if decide (rdstate (fs_ios s) = goodbit) then
    match fb_file (rdbuf s) with
    | None => i ← setstate (fs_ios s) badbit; mret (MkFstream i (rdbuf s))
    | Some fd =>
        ok ← sys (Os.write fd data);
        if ok : bool then mret s
        else i ← setstate (fs_ios s) badbit; mret (MkFstream i (rdbuf s))
    end
  else i ← setstate (fs_ios s) failbit; mret (MkFstream i (rdbuf s)).

(** [std::stringstream]. *)
Record stringstream := MkStringstream { ss_ios : ios; str : string }.

Definition stringstream_default : stringstream :=
  MkStringstream ios_init EmptyString.

(** [ostream::operator<<] for a stream buffer [sb]: characters are
    taken from [sb] until it is at end of file; inserting none sets
    [failbit]. *)
Definition insert_streambuf (buffer : stringstream) (sb : filebuf)
    : M stringstream :=
  if decide (rdstate (ss_ios buffer) = goodbit) then
    got ← filebuf_drain sb;
    if decide (got = EmptyString) then
      i ← setstate (ss_ios buffer) failbit; mret (MkStringstream i (str buffer))
    else mret (MkStringstream (ss_ios buffer) (str buffer +:+ got))
  else
    i ← setstate (ss_ios buffer) failbit; mret (MkStringstream i (str buffer)).

(** [std::cout << s] and [std::cout << std::endl]. *)
Definition cout_insert (s : string) : M unit :=
  λ w, (Ok tt, Os.print s w).
Definition cout_endl : M unit := cout_insert newline.

End Ios.

(** * IO.cpp *)

Record IO := MkIO { file_stream : Ios.fstream }.

(** [IO::IO(const std::string &file_path)] *)
Definition IO_ctor (file_path : string) : M IO :=
  file_stream ← Ios.open Ios.fstream_default file_path
                  (Z.lor (Z.lor Ios.in_ Ios.out) Ios.binary);
  _ ← (if negb (Ios.is_open file_stream) then
         _ ← Ios.cout_insert "Unable to openthe file: ";
         _ ← Ios.cout_insert file_path;
         Ios.cout_endl
       else mret tt);
  mret (MkIO file_stream).

(** [fstream IO::getFileStream()]: the returned stream is move-constructed
    from the member, which stays behind in the wrapper. *)
Definition IO_getFileStream (io : IO) : Ios.fstream * IO :=
  let '(moved, file_stream) := Ios.move (file_stream io) in
  (moved, MkIO file_stream).

(** [IO::~IO()]: the body, then the destructor of the member. *)
Definition IO_dtor (io : IO) : M unit :=
  file_stream ← (if Ios.is_open (file_stream io)
                 then Ios.close (file_stream io)
                 else mret (file_stream io));
  Ios.fstream_dtor file_stream.

(** * ReadEnv.cpp *)

(** The body of [ReadEnv::getenv] after its first line, for the path
    bound there. *)
Definition getenv_at (env_path : string) : M string :=
  io ← IO_ctor env_path;
  let '(f_stream, io) := IO_getFileStream io in
  at_scope_exit (IO_dtor io)
    (at_scope_exit (Ios.fstream_dtor f_stream)
       (let buffer := Ios.stringstream_default in
        buffer ← Ios.insert_streambuf buffer (Ios.rdbuf f_stream);
        let content := Ios.str buffer in
        mret content)).

(** [std::string ReadEnv::getenv()] *)
Definition getenv : M string :=
  let env_path := ".env" in
  getenv_at env_path.

(** * Usage scenarios the specification speaks about *)

(** The line the constructor prints for [path]. *)
Definition diagnostic (path : string) : string :=
  "Unable to openthe file: " +:+ path +:+ newline.

(** How a caller lives with a handle: never asks for the stream; asks for
    it and lets the stream go first (as [getenv] does); or asks for it and
    keeps the stream longer than the wrapper. *)
Inductive usage := Kept | TakenStreamFirst | TakenWrapperFirst.

Definition lifetime (path : string) (u : usage) : M unit :=
  io ← IO_ctor path;
  match u with
  | Kept => IO_dtor io
  | TakenStreamFirst =>
      let '(f_stream, io) := IO_getFileStream io in
      at_scope_exit (IO_dtor io) (Ios.fstream_dtor f_stream)
  | TakenWrapperFirst =>
      let '(f_stream, io) := IO_getFileStream io in
      at_scope_exit (Ios.fstream_dtor f_stream) (IO_dtor io)
  end.

(** A test fixture: put [content] into the file at [path], the way
    [std::ofstream(path, std::ios::binary) << content] does. *)
Definition write_file (path content : string) : M unit :=
  s ← Ios.open Ios.fstream_default path
        (Z.lor (Z.lor Ios.out Ios.trunc) Ios.binary);
  at_scope_exit (Ios.fstream_dtor s) (_ ← Ios.write s content; mret tt).

(** The full read [getenv] performs on a stream (ReadEnv.cpp, lines 51
    to 57), for any stream. *)
Definition read_all (f_stream : Ios.fstream) : M string :=
  let buffer := Ios.stringstream_default in
  buffer ← Ios.insert_streambuf buffer (Ios.rdbuf f_stream);
  let content := Ios.str buffer in
  mret content.

(** Descriptors handed out, given back, and bad [close] calls, in a trace. *)
Definition opened (t : list Os.syscall) : list nat :=
  omap (λ e, match e with Os.SysOpen _ _ _ (inr fd) => Some fd | _ => None end) t.
Definition closed (t : list Os.syscall) : list nat :=
  omap (λ e, match e with Os.SysClose fd None => Some fd | _ => None end) t.
Definition bad_closes (t : list Os.syscall) : list nat :=
  omap (λ e, match e with Os.SysClose fd (Some _) => Some fd | _ => None end) t.

(** Descriptors written to or repositioned, in a trace. *)
Definition written (t : list Os.syscall) : list nat :=
  omap (λ e, match e with
             | Os.SysWrite fd _ | Os.SysSeekEnd fd => Some fd
             | _ => None
             end) t.

(** The file at [path] can be opened for reading and writing. *)
Definition opens_rw (path : string) (w : Os.world) : Prop :=
  ∃ f, Os.w_fs w !! path = Some f
       ∧ Os.f_may_read f = true ∧ Os.f_may_write f = true.

(** Worlds used as concrete inputs. *)
Definition key_value : string := "KEY=VALUE" +:+ newline.
Definition world_with (f : Os.file) : Os.world :=
  Os.World {[ ".env" := f ]} ∅ EmptyString [].
Definition world_rw : Os.world := world_with (Os.File key_value true true).
Definition world_read_only : Os.world := world_with (Os.File key_value true false).
Definition world_empty_file : Os.world := world_with (Os.File EmptyString true true).
Definition world_empty_read_only : Os.world :=
  world_with (Os.File EmptyString true false).
Definition world_no_file : Os.world := Os.World ∅ ∅ EmptyString [].

(** A busier system: the same [.env], another file, a descriptor already
    open on it, and earlier console output. *)
Definition world_busy : Os.world :=
  Os.World (<["notes.txt" := Os.File "abc" true false]>
              {[ ".env" := Os.File key_value true true ]})
           {[ 0%nat := Os.Ofd "notes.txt" 1 true false false ]}
           "ready" [].

(** * Facts about strings *)

Lemma str_app_cons (x : ascii) (a b : string) :
  String x a +:+ b = String x (a +:+ b).
Proof. reflexivity. Qed.

Lemma str_app_assoc (a b c : string) : (a +:+ b) +:+ c = a +:+ (b +:+ c).
Proof.
  induction a as [|x a IH]; [reflexivity|].
  rewrite !str_app_cons. by rewrite IH.
Qed.

Lemma str_app_nil_r (a : string) : a +:+ EmptyString = a.
Proof.
  induction a as [|x a IH]; [reflexivity|].
  rewrite str_app_cons. by rewrite IH.
Qed.

Lemma str_drop_0 (s : string) : str_drop 0 s = s.
Proof. by destruct s. Qed.

Lemma str_drop_nil (n : nat) : str_drop n EmptyString = EmptyString.
Proof. by destruct n. Qed.

Lemma diagnostic_mentions (path : string) : mentions (diagnostic path) path.
Proof. by exists "Unable to openthe file: ", newline. Qed.

(** * Facts about the environment *)

Lemma open_check_r_plus (path : string) (fs : gmap string Os.file) :
  Os.open_check path Os.Mr_plus fs =
  match fs !! path with
  | None => inl Os.ENOENT
  | Some f => if Os.f_may_read f && Os.f_may_write f then inr fs else inl Os.EACCES
  end.
Proof.
  unfold Os.open_check, Os.permitted. simpl.
  destruct (fs !! path) as [f|]; reflexivity.
Qed.

Lemma fresh_fd_unused (fds : gmap nat Os.ofd) : fds !! fresh (dom fds) = None.
Proof. apply not_elem_of_dom, is_fresh. Qed.

Lemma mode_rw_binary :
  Ios.fopen_mode_of (Z.lor (Z.lor Ios.in_ Ios.out) Ios.binary)
  = Some (Os.Mr_plus, true).
Proof. reflexivity. Qed.

Lemma mode_rw_binary_not_ate :
  Z.testbit (Z.lor (Z.lor Ios.in_ Ios.out) Ios.binary) 1 = false.
Proof. reflexivity. Qed.

(** The constructor, by cases on what the file system answers. *)
Lemma IO_ctor_eq (path : string) (w : Os.world) :
  IO_ctor path w =
  match Os.open_check path Os.Mr_plus (Os.w_fs w) with
  | inl e =>
      (Ok (MkIO (Ios.MkFstream (Ios.MkIos Ios.failbit Ios.goodbit)
                               (Ios.MkFilebuf None))),
       Os.print newline (Os.print path (Os.print "Unable to openthe file: "
         (Os.log (Os.SysOpen path Os.Mr_plus true (inl e)) w))))
  | inr fs' =>
      let fd := fresh (dom (Os.w_fds w)) in
      (Ok (MkIO (Ios.MkFstream Ios.ios_init (Ios.MkFilebuf (Some fd)))),
       Os.log (Os.SysOpen path Os.Mr_plus true (inr fd))
         (Os.set_fds (<[fd := Os.Ofd path 0 true true false]> (Os.w_fds w))
            (Os.set_fs fs' w)))
  end.
Proof.
  unfold IO_ctor, Ios.open, Ios.filebuf_open.
  rewrite mode_rw_binary, mode_rw_binary_not_ate.
  unfold mbind, M_bind, mret, M_ret, sys, Os.fopen. simpl.
  destruct (Os.open_check path Os.Mr_plus (Os.w_fs w)) as [e|fs']; reflexivity.
Qed.

(** Unfold the plumbing of [M]. *)
Ltac run := unfold at_scope_exit, mbind, M_bind, mret, M_ret, sys, throw; simpl.

Lemma fstream_dtor_not_open (i : Ios.ios) (w : Os.world) :
  Ios.fstream_dtor (Ios.MkFstream i (Ios.MkFilebuf None)) w = (Ok tt, w).
Proof. reflexivity. Qed.

Lemma IO_dtor_not_open (i : Ios.ios) (w : Os.world) :
  IO_dtor (MkIO (Ios.MkFstream i (Ios.MkFilebuf None))) w = (Ok tt, w).
Proof. reflexivity. Qed.

Lemma fstream_dtor_open (i : Ios.ios) (fd : nat) (d : Os.ofd) (w : Os.world) :
  Os.w_fds w !! fd = Some d →
  Ios.fstream_dtor (Ios.MkFstream i (Ios.MkFilebuf (Some fd))) w
  = (Ok tt, Os.log (Os.SysClose fd None) (Os.set_fds (delete fd (Os.w_fds w)) w)).
Proof.
  intros Hd. unfold Ios.fstream_dtor, Ios.filebuf_close. run.
  unfold Os.close. by rewrite Hd.
Qed.

Lemma IO_dtor_open (i : Ios.ios) (fd : nat) (d : Os.ofd) (w : Os.world) :
  Os.w_fds w !! fd = Some d →
  IO_dtor (MkIO (Ios.MkFstream i (Ios.MkFilebuf (Some fd)))) w
  = (Ok tt, Os.log (Os.SysClose fd None) (Os.set_fds (delete fd (Os.w_fds w)) w)).
Proof.
  intros Hd. unfold IO_dtor, Ios.close, Ios.filebuf_close. run.
  unfold Os.close. by rewrite Hd.
Qed.

Lemma insert_streambuf_not_open (w : Os.world) :
  Ios.insert_streambuf Ios.stringstream_default (Ios.MkFilebuf None) w
  = (Ok (Ios.MkStringstream (Ios.MkIos Ios.failbit Ios.goodbit) EmptyString), w).
Proof. reflexivity. Qed.

Lemma insert_streambuf_open (fd : nat) (d : Os.ofd) (f : Os.file) (w : Os.world) :
  Os.w_fds w !! fd = Some d →
  Os.w_fs w !! Os.ofd_path d = Some f →
  Os.ofd_read d = true →
  ∃ buffer,
    Ios.insert_streambuf Ios.stringstream_default (Ios.MkFilebuf (Some fd)) w
    = (Ok buffer, snd (Os.read_to_eof fd w))
    ∧ Ios.str buffer = str_drop (Os.ofd_pos d) (Os.f_data f).
Proof.
  intros Hd Hf Hr. unfold Ios.insert_streambuf, Ios.filebuf_drain. run.
  unfold Os.read_to_eof. rewrite Hd, Hf, Hr.
  destruct (decide (str_drop (Os.ofd_pos d) (Os.f_data f) = EmptyString)) as [E|E].
  - eexists. split; [reflexivity|]. by rewrite E.
  - eexists. split; [reflexivity|]. reflexivity.
Qed.

Lemma getenv_at_fail (path : string) (w : Os.world) (e : Os.errno) :
  Os.open_check path Os.Mr_plus (Os.w_fs w) = inl e →
  getenv_at path w =
  (Ok EmptyString,
   Os.World (Os.w_fs w) (Os.w_fds w) (Os.w_cout w +:+ diagnostic path)
     (Os.w_trace w ++ [Os.SysOpen path Os.Mr_plus true (inl e)])).
Proof.
  intros He. unfold getenv_at.
  unfold mbind at 1. unfold M_bind. rewrite IO_ctor_eq, He.
  unfold IO_getFileStream, Ios.move, file_stream, Ios.rdbuf, Ios.fs_ios.
  unfold at_scope_exit, mbind, M_bind.
  rewrite insert_streambuf_not_open. cbv beta iota. unfold mret at 1, M_ret at 1.
  rewrite fstream_dtor_not_open, IO_dtor_not_open.
  unfold diagnostic, Os.print, Os.log. simpl.
  by rewrite !str_app_assoc.
Qed.

Lemma getenv_at_ok (path : string) (w : Os.world) (f : Os.file) :
  Os.w_fs w !! path = Some f →
  Os.f_may_read f = true → Os.f_may_write f = true →
  getenv_at path w =
  (Ok (Os.f_data f),
   let fd := fresh (dom (Os.w_fds w)) in
   Os.World (Os.w_fs w) (Os.w_fds w) (Os.w_cout w)
     (Os.w_trace w ++ [Os.SysOpen path Os.Mr_plus true (inr fd);
                       Os.SysRead fd (String.length (Os.f_data f));
                       Os.SysClose fd None])).
Proof.
  intros Hf Hr Hw. unfold getenv_at.
  unfold mbind at 1. unfold M_bind. rewrite IO_ctor_eq, open_check_r_plus, Hf, Hr, Hw.
  cbv zeta. cbn [andb].
  unfold IO_getFileStream, Ios.move, file_stream, Ios.rdbuf, Ios.fs_ios.
  set (fd := fresh (dom (Os.w_fds w))).
  set (w1 := Os.log _ _).
  assert (Hd : Os.w_fds w1 !! fd = Some (Os.Ofd path 0 true true false))
    by apply lookup_insert_eq.
  destruct (insert_streambuf_open fd _ f w1 Hd Hf eq_refl) as (buffer & Hins & Hstr).
  unfold at_scope_exit, mbind, M_bind. rewrite Hins.
  cbv beta iota. unfold mret, M_ret.
  unfold Os.read_to_eof. rewrite Hd. simpl Os.ofd_path. 
  replace (Os.w_fs w1 !! path) with (Some f) by (symmetry; exact Hf).
  cbn [Os.ofd_read Os.ofd_pos snd] in *. rewrite str_drop_0 in *.
  erewrite fstream_dtor_open by apply lookup_insert_eq.
  rewrite IO_dtor_not_open, Hstr.
  f_equal. unfold Os.log, Os.set_fds, Os.set_fs, w1. simpl.
  rewrite insert_insert_eq, delete_insert_eq, <- !app_assoc. simpl.
  f_equal. apply delete_id, fresh_fd_unused.
Qed.

Lemma fopen_fails_iff (path : string) (m : Os.fopen_mode) (b : bool)
    (w : Os.world) (e : Os.errno) :
  fst (Os.fopen path m b w) = inl e ↔ Os.open_check path m (Os.w_fs w) = inl e.
Proof.
  unfold Os.fopen.
  destruct (Os.open_check path m (Os.w_fs w)) as [e'|fs']; simpl;
    split; congruence.
Qed.

Lemma missing_file_cannot_open (path : string) (w : Os.world) :
  Os.w_fs w !! path = None →
  fst (Os.fopen path Os.Mr_plus true w) = inl Os.ENOENT.
Proof. intros H. apply fopen_fails_iff. by rewrite open_check_r_plus, H. Qed.

Lemma denied_file_cannot_open (path : string) (w : Os.world) (f : Os.file) :
  Os.w_fs w !! path = Some f →
  Os.f_may_read f && Os.f_may_write f = false →
  fst (Os.fopen path Os.Mr_plus true w) = inl Os.EACCES.
Proof. intros H Hp. apply fopen_fails_iff. by rewrite open_check_r_plus, H, Hp. Qed.

(** [open_check] for [r+] either fails or leaves the file system alone. *)
Lemma open_check_r_plus_cases (path : string) (fs : gmap string Os.file) :
  (∃ e, Os.open_check path Os.Mr_plus fs = inl e)
  ∨ (∃ f, fs !! path = Some f
          ∧ Os.f_may_read f = true ∧ Os.f_may_write f = true).
Proof.
  rewrite open_check_r_plus.
  destruct (fs !! path) as [f|]; [|left; eauto].
  destruct (Os.f_may_read f) eqn:Hr, (Os.f_may_write f) eqn:Hw; simpl;
    eauto 6.
Qed.

(** [getenv_at] touches neither the file system nor, in the end, the
    descriptor table. *)
Lemma getenv_at_frame (path : string) (w : Os.world) :
  Os.w_fs (snd (getenv_at path w)) = Os.w_fs w
  ∧ Os.w_fds (snd (getenv_at path w)) = Os.w_fds w.
Proof.
  destruct (open_check_r_plus_cases path (Os.w_fs w))
    as [[e He]|(f & Hf & Hr & Hw)].
  - by rewrite (getenv_at_fail _ _ _ He).
  - by rewrite (getenv_at_ok _ _ _ Hf Hr Hw).
Qed.

(** What [getenv_at] returns is decided by the file at [path] alone. *)
Lemma getenv_at_depends_on_file (path : string) (w1 w2 : Os.world) :
  Os.w_fs w1 !! path = Os.w_fs w2 !! path →
  fst (getenv_at path w1) = fst (getenv_at path w2).
Proof.
  intros Heq.
  destruct (Os.w_fs w1 !! path) as [f|] eqn:H1; symmetry in Heq.
  - destruct (Os.f_may_read f && Os.f_may_write f) eqn:Hp.
    + apply andb_prop in Hp as [Hr Hw].
      by rewrite (getenv_at_ok _ _ _ H1 Hr Hw), (getenv_at_ok _ _ _ Heq Hr Hw).
    + assert (He1 : Os.open_check path Os.Mr_plus (Os.w_fs w1) = inl Os.EACCES)
        by (by rewrite open_check_r_plus, H1, Hp).
      assert (He2 : Os.open_check path Os.Mr_plus (Os.w_fs w2) = inl Os.EACCES)
        by (by rewrite open_check_r_plus, Heq, Hp).
      by rewrite (getenv_at_fail _ _ _ He1), (getenv_at_fail _ _ _ He2).
  - assert (He1 : Os.open_check path Os.Mr_plus (Os.w_fs w1) = inl Os.ENOENT)
      by (by rewrite open_check_r_plus, H1).
    assert (He2 : Os.open_check path Os.Mr_plus (Os.w_fs w2) = inl Os.ENOENT)
      by (by rewrite open_check_r_plus, Heq).
    by rewrite (getenv_at_fail _ _ _ He1), (getenv_at_fail _ _ _ He2).
Qed.

Lemma getenv_at_read_all (env_path : string) :
  getenv_at env_path =
  (io ← IO_ctor env_path;
   let '(f_stream, io) := IO_getFileStream io in
   at_scope_exit (IO_dtor io)
     (at_scope_exit (Ios.fstream_dtor f_stream) (read_all f_stream))).
Proof. reflexivity. Qed.

(** * The claims *)

(** ** C1 *)

(** C1, as stated, fails: the file [.env] exists, is readable and holds
    [KEY=VALUE] and a line feed, but is not writable; [getenv] returns the
    empty string, not the content. *)
Lemma getenv_readable_file_counterexample :
  Os.w_fs world_read_only !! ".env" = Some (Os.File key_value true false)
  ∧ Os.f_may_read (Os.File key_value true false) = true
  ∧ fst (getenv world_read_only) = Ok EmptyString
  ∧ fst (getenv world_read_only) ≠ Ok key_value.
Proof.
  split; [reflexivity|]. split; [reflexivity|].
  assert (H : fst (getenv world_read_only) = Ok EmptyString)
    by (vm_compute; reflexivity).
  split; [exact H|]. rewrite H. discriminate.
Qed.

(** C1 (amended): for every file [.env] with content C that the process
    may both read and write, [getenv] returns exactly C: nothing trimmed,
    nothing parsed, every byte kept. *)
Theorem getenv_returns_content (w : Os.world) (f : Os.file) :
  Os.w_fs w !! ".env" = Some f →
  Os.f_may_read f = true →
  Os.f_may_write f = true →
  fst (getenv w) = Ok (Os.f_data f).
Proof.
  intros Hf Hr Hw. unfold getenv. by rewrite (getenv_at_ok _ _ _ Hf Hr Hw).
Qed.

(** Scenario 1: [.env] holds [KEY=VALUE] and a line feed. *)
Lemma getenv_returns_content_witness :
  fst (getenv world_rw) = Ok key_value.
Proof.
  apply (getenv_returns_content world_rw (Os.File key_value true true));
    reflexivity.
Defined.

(** ** C3 *)

(** C3: when the open fails, for whatever reason the system gives, the
    constructor returns normally (nothing is thrown), the handle is not
    open, and the console gained exactly one message, which contains the
    path. *)
Theorem IO_ctor_open_failure (file_path : string) (w : Os.world) (e : Os.errno) :
  fst (Os.fopen file_path Os.Mr_plus true w) = inl e →
  ∃ io w',
    IO_ctor file_path w = (Ok io, w')
    ∧ Ios.is_open (file_stream io) = false
    ∧ Os.w_cout w' = Os.w_cout w +:+ diagnostic file_path
    ∧ mentions (diagnostic file_path) file_path
    ∧ Os.w_fds w' = Os.w_fds w
    ∧ Os.w_fs w' = Os.w_fs w.
Proof.
  intros He. apply fopen_fails_iff in He.
  rewrite IO_ctor_eq, He. eexists _, _. split; [reflexivity|].
  split; [reflexivity|]. split.
  { unfold diagnostic. simpl. by rewrite !str_app_assoc. }
  split; [apply diagnostic_mentions|]. split; reflexivity.
Qed.

Lemma IO_ctor_open_failure_witness :
  ∃ io w',
    IO_ctor "missing.txt" world_no_file = (Ok io, w')
    ∧ Ios.is_open (file_stream io) = false
    ∧ Os.w_cout w' = Os.w_cout world_no_file +:+ diagnostic "missing.txt"
    ∧ mentions (diagnostic "missing.txt") "missing.txt"
    ∧ Os.w_fds w' = Os.w_fds world_no_file
    ∧ Os.w_fs w' = Os.w_fs world_no_file.
Proof.
  apply (IO_ctor_open_failure "missing.txt" world_no_file Os.ENOENT).
  reflexivity.
Defined.

(** ** C4 *)

(** C4: when [.env] cannot be opened (it does not exist, or for any other
    reason), [getenv] returns the empty string and the console gains the
    diagnostic, which mentions [.env]; an empty [.env] that opens gives
    the very same return value. *)
Theorem getenv_open_failure (w : Os.world) (e : Os.errno) :
  fst (Os.fopen ".env" Os.Mr_plus true w) = inl e →
  ∃ w',
    getenv w = (Ok EmptyString, w')
    ∧ Os.w_cout w' = Os.w_cout w +:+ diagnostic ".env"
    ∧ mentions (diagnostic ".env") ".env"
    ∧ ∀ (w0 : Os.world) (f : Os.file),
        Os.w_fs w0 !! ".env" = Some f →
        Os.f_data f = EmptyString →
        Os.f_may_read f = true →
        Os.f_may_write f = true →
        fst (getenv w0) = fst (getenv w).
Proof.
  intros He. apply fopen_fails_iff in He.
  unfold getenv. rewrite (getenv_at_fail _ _ _ He).
  eexists. split; [reflexivity|]. split; [reflexivity|].
  split; [apply diagnostic_mentions|].
  intros w0 f Hf Hd Hr Hw. rewrite (getenv_at_ok _ _ _ Hf Hr Hw).
  simpl. by rewrite Hd.
Qed.

(** Scenario 2: no [.env] in the working directory. *)
Lemma getenv_open_failure_witness :
  Os.w_fs world_no_file !! ".env" = None
  ∧ ∃ w',
      getenv world_no_file = (Ok EmptyString, w')
      ∧ Os.w_cout w' = Os.w_cout world_no_file +:+ diagnostic ".env"
      ∧ mentions (diagnostic ".env") ".env"
      ∧ ∀ (w0 : Os.world) (f : Os.file),
          Os.w_fs w0 !! ".env" = Some f →
          Os.f_data f = EmptyString →
          Os.f_may_read f = true →
          Os.f_may_write f = true →
          fst (getenv w0) = fst (getenv world_no_file).
Proof.
  split; [reflexivity|].
  apply (getenv_open_failure world_no_file Os.ENOENT). reflexivity.
Defined.

(** ** C6 *)

(** C6: for every path, the one request the constructor makes of the
    system is to open that path in mode [r+b]: reading and writing,
    binary, without creating or truncating the file. *)
Theorem IO_ctor_opens_read_write_binary (file_path : string) (w : Os.world) :
  Ios.fopen_mode_of (Z.lor (Z.lor Ios.in_ Ios.out) Ios.binary)
    = Some (Os.Mr_plus, true)
  ∧ Os.wants_read Os.Mr_plus = true
  ∧ Os.wants_write Os.Mr_plus = true
  ∧ ∃ r, Os.w_trace (snd (IO_ctor file_path w))
         = Os.w_trace w ++ [Os.SysOpen file_path Os.Mr_plus true r].
Proof.
  split; [reflexivity|]. split; [reflexivity|]. split; [reflexivity|].
  rewrite IO_ctor_eq.
  destruct (Os.open_check file_path Os.Mr_plus (Os.w_fs w)) as [e|fs'];
    eexists; reflexivity.
Qed.

(** ** C7 *)

(** C7, as stated, fails: [.env] exists and is zero bytes long, but is not
    writable; [getenv] returns the empty string and the diagnostic is
    printed all the same. *)
Lemma getenv_empty_file_counterexample :
  Os.w_fs world_empty_read_only !! ".env" = Some (Os.File EmptyString true false)
  ∧ fst (getenv world_empty_read_only) = Ok EmptyString
  ∧ Os.w_cout world_empty_read_only = EmptyString
  ∧ Os.w_cout (snd (getenv world_empty_read_only)) = diagnostic ".env"
  ∧ Os.w_cout (snd (getenv world_empty_read_only))
    ≠ Os.w_cout world_empty_read_only.
Proof.
  split; [reflexivity|]. split; [vm_compute; reflexivity|].
  split; [reflexivity|].
  assert (H : Os.w_cout (snd (getenv world_empty_read_only)) = diagnostic ".env")
    by (vm_compute; reflexivity).
  split; [exact H|]. rewrite H. discriminate.
Qed.

(** C7 (amended): if [.env] exists, is zero bytes long and may be read and
    written by the process, [getenv] returns the empty string and prints
    nothing. *)
Theorem getenv_empty_file (w : Os.world) (f : Os.file) :
  Os.w_fs w !! ".env" = Some f →
  Os.f_data f = EmptyString →
  Os.f_may_read f = true →
  Os.f_may_write f = true →
  ∃ w', getenv w = (Ok EmptyString, w') ∧ Os.w_cout w' = Os.w_cout w.
Proof.
  intros Hf Hd Hr Hw. unfold getenv. rewrite (getenv_at_ok _ _ _ Hf Hr Hw), Hd.
  eexists. split; reflexivity.
Qed.

(** Scenario 3: [.env] is zero bytes long. *)
Lemma getenv_empty_file_witness :
  ∃ w', getenv world_empty_file = (Ok EmptyString, w')
        ∧ Os.w_cout w' = Os.w_cout world_empty_file.
Proof.
  apply (getenv_empty_file world_empty_file (Os.File EmptyString true true));
    reflexivity.
Defined.

(** ** C8 *)

(** C8: two calls of [getenv] in a row, nothing else touching [.env] in
    between, return equal strings. *)
Theorem getenv_twice (w : Os.world) :
  fst (getenv (snd (getenv w))) = fst (getenv w).
Proof.
  unfold getenv. apply getenv_at_depends_on_file.
  by destruct (getenv_at_frame ".env" w) as [-> _].
Qed.

(** ** C9 *)

(** C9: [getenv] leaves the file system as it found it: no file gains,
    loses or changes a byte, and none is created, although the stream is
    opened for writing too. *)
Theorem getenv_keeps_files (w : Os.world) :
  Os.w_fs (snd (getenv w)) = Os.w_fs w.
Proof. unfold getenv. apply getenv_at_frame. Qed.

(** ** C10 *)

(** C10: a [.env] that exists and is readable but not writable does not
    open: the handle is not open, the diagnostic is printed, and [getenv]
    returns the empty string, whatever the file holds. *)
Theorem getenv_read_only_file (w : Os.world) (f : Os.file) :
  Os.w_fs w !! ".env" = Some f →
  Os.f_may_read f = true →
  Os.f_may_write f = false →
  (∃ io w1,
     IO_ctor ".env" w = (Ok io, w1)
     ∧ Ios.is_open (file_stream io) = false
     ∧ Os.w_cout w1 = Os.w_cout w +:+ diagnostic ".env")
  ∧ ∃ w',
      getenv w = (Ok EmptyString, w')
      ∧ Os.w_cout w' = Os.w_cout w +:+ diagnostic ".env".
Proof.
  intros Hf Hr Hw.
  assert (He : Os.open_check ".env" Os.Mr_plus (Os.w_fs w) = inl Os.EACCES)
    by (by rewrite open_check_r_plus, Hf, Hr, Hw).
  split.
  - rewrite IO_ctor_eq, He. eexists _, _. split; [reflexivity|].
    split; [reflexivity|]. unfold diagnostic. simpl. by rewrite !str_app_assoc.
  - unfold getenv. rewrite (getenv_at_fail _ _ _ He).
    eexists. split; reflexivity.
Qed.

Lemma getenv_read_only_file_witness :
  (∃ io w1,
     IO_ctor ".env" world_read_only = (Ok io, w1)
     ∧ Ios.is_open (file_stream io) = false
     ∧ Os.w_cout w1 = Os.w_cout world_read_only +:+ diagnostic ".env")
  ∧ ∃ w',
      getenv world_read_only = (Ok EmptyString, w')
      ∧ Os.w_cout w' = Os.w_cout world_read_only +:+ diagnostic ".env".
Proof.
  apply (getenv_read_only_file world_read_only (Os.File key_value true false));
    reflexivity.
Defined.

(** The whole life of a handle, by cases on what the file system answers. *)
Lemma lifetime_eq (path : string) (u : usage) (w : Os.world) :
  lifetime path u w =
  match Os.open_check path Os.Mr_plus (Os.w_fs w) with
  | inl e =>
      (Ok tt,
       Os.World (Os.w_fs w) (Os.w_fds w) (Os.w_cout w +:+ diagnostic path)
         (Os.w_trace w ++ [Os.SysOpen path Os.Mr_plus true (inl e)]))
  | inr fs' =>
      let fd := fresh (dom (Os.w_fds w)) in
      (Ok tt,
       Os.World fs' (Os.w_fds w) (Os.w_cout w)
         (Os.w_trace w ++ [Os.SysOpen path Os.Mr_plus true (inr fd);
                           Os.SysClose fd None]))
  end.
Proof.
  unfold lifetime. unfold mbind at 1. unfold M_bind. rewrite IO_ctor_eq.
  destruct (Os.open_check path Os.Mr_plus (Os.w_fs w)) as [e|fs'].
  - unfold IO_getFileStream, Ios.move, file_stream, Ios.rdbuf, Ios.fs_ios.
    destruct u; unfold at_scope_exit;
      rewrite ?fstream_dtor_not_open, ?IO_dtor_not_open;
      unfold diagnostic, Os.print, Os.log; simpl; by rewrite !str_app_assoc.
  - cbv zeta. set (fd := fresh (dom (Os.w_fds w))). set (w1 := Os.log _ _).
    assert (Hd : Os.w_fds w1 !! fd = Some (Os.Ofd path 0 true true false))
      by apply lookup_insert_eq.
    assert (Hend : Os.log (Os.SysClose fd None)
                     (Os.set_fds (delete fd (Os.w_fds w1)) w1)
                   = Os.World fs' (Os.w_fds w) (Os.w_cout w)
                       (Os.w_trace w ++ [Os.SysOpen path Os.Mr_plus true (inr fd);
                                         Os.SysClose fd None])).
    { unfold Os.log, Os.set_fds, Os.set_fs, w1. simpl.
      rewrite delete_insert_eq, <- app_assoc. simpl.
      f_equal. apply delete_id, fresh_fd_unused. }
    unfold IO_getFileStream, Ios.move, file_stream, Ios.rdbuf, Ios.fs_ios.
    destruct u; unfold at_scope_exit.
    + by rewrite (IO_dtor_open _ _ _ _ Hd), Hend.
    + by rewrite (fstream_dtor_open _ _ _ _ Hd), IO_dtor_not_open, Hend.
    + by rewrite IO_dtor_not_open, (fstream_dtor_open _ _ _ _ Hd), Hend.
Qed.

(** ** C5 *)

(** C5: over the whole life of a handle (stream never asked for; asked
    for and destroyed before the wrapper; asked for and destroyed after
    it), whether the open succeeded or not, every descriptor obtained is
    closed exactly once, no [close] is issued on a descriptor that is not
    open, and the descriptor table ends as it began. The destructor of the
    wrapper issues a [close] exactly when its stream is still open; after
    the stream was moved out, or when the open failed, it does nothing. *)
Theorem handle_released_exactly_once (path : string) (u : usage) (w : Os.world) :
  (∃ w' t,
     lifetime path u w = (Ok tt, w')
     ∧ Os.w_trace w' = Os.w_trace w ++ t
     ∧ closed t = opened t
     ∧ NoDup (closed t)
     ∧ bad_closes t = []
     ∧ Os.w_fds w' = Os.w_fds w)
  ∧ ∃ io w1,
      IO_ctor path w = (Ok io, w1)
      ∧ Ios.is_open (file_stream (snd (IO_getFileStream io))) = false
      ∧ (∀ w2, IO_dtor (snd (IO_getFileStream io)) w2 = (Ok tt, w2))
      ∧ ∃ w2,
          IO_dtor io w1 = (Ok tt, w2)
          ∧ Os.w_trace w2
            = Os.w_trace w1
              ++ match Ios.fb_file (Ios.rdbuf (file_stream io)) with
                 | Some fd => [Os.SysClose fd None]
                 | None => []
                 end.
Proof.
  split.
  - rewrite lifetime_eq.
    destruct (Os.open_check path Os.Mr_plus (Os.w_fs w)) as [e|fs'].
    + eexists _, _. split; [reflexivity|]. split; [reflexivity|].
      split; [reflexivity|]. split; [apply NoDup_nil_2|]. by split.
    + eexists _, _. split; [reflexivity|]. split; [reflexivity|].
      split; [reflexivity|]. split; [apply NoDup_singleton|]. by split.
  - rewrite IO_ctor_eq.
    destruct (Os.open_check path Os.Mr_plus (Os.w_fs w)) as [e|fs'].
    + eexists _, _. split; [reflexivity|]. split; [reflexivity|].
      split; [intros w2; reflexivity|].
      eexists. split; [reflexivity|]. simpl. by rewrite app_nil_r.
    + eexists _, _. split; [reflexivity|]. split; [reflexivity|].
      split; [intros w2; reflexivity|].
      eexists. split; [by eapply IO_dtor_open, lookup_insert_eq|].
      reflexivity.
Qed.

Lemma mode_w_binary :
  Ios.fopen_mode_of (Z.lor (Z.lor Ios.out Ios.trunc) Ios.binary)
  = Some (Os.Mw, true).
Proof. reflexivity. Qed.

Lemma mode_w_binary_not_ate :
  Z.testbit (Z.lor (Z.lor Ios.out Ios.trunc) Ios.binary) 1 = false.
Proof. reflexivity. Qed.

Lemma write_at_start (fd : nat) (path content : string) (rd : bool)
    (pr pw : bool) (w : Os.world) :
  Os.w_fds w !! fd = Some (Os.Ofd path 0 rd true false) →
  Os.w_fs w !! path = Some (Os.File EmptyString pr pw) →
  ∃ w', Ios.write (Ios.MkFstream Ios.ios_init (Ios.MkFilebuf (Some fd))) content w
        = (Ok (Ios.MkFstream Ios.ios_init (Ios.MkFilebuf (Some fd))), w')
        ∧ Os.w_fs w' = <[path := Os.File content pr pw]> (Os.w_fs w)
        ∧ is_Some (Os.w_fds w' !! fd).
Proof.
  intros Hd Hf. unfold Ios.write. run. unfold Os.write. rewrite Hd. simpl.
  rewrite Hf. simpl. eexists. split; [reflexivity|]. simpl.
  rewrite str_drop_nil, str_app_nil_r. split; [reflexivity|].
  rewrite lookup_insert_eq. eauto.
Qed.

(** [open] on a fresh stream, in terms of [fopen]. *)
Lemma open_default_eq (path : string) (mode : Z) (m : Os.fopen_mode)
    (b : bool) (w : Os.world) :
  Ios.fopen_mode_of mode = Some (m, b) →
  Z.testbit mode 1 = false →
  Ios.open Ios.fstream_default path mode w =
  match Os.fopen path m b w with
  | (inl _, w') =>
      (Ok (Ios.MkFstream (Ios.MkIos Ios.failbit Ios.goodbit) (Ios.MkFilebuf None)), w')
  | (inr fd, w') =>
      (Ok (Ios.MkFstream Ios.ios_init (Ios.MkFilebuf (Some fd))), w')
  end.
Proof.
  intros Hm Ha. unfold Ios.open, Ios.filebuf_open. rewrite Hm, Ha.
  unfold mbind, M_bind, mret, M_ret, sys. simpl.
  destruct (Os.fopen path m b w) as [[e|fd] w']; reflexivity.
Qed.

(** After [write_file], the file at [path] holds [content] and may be
    read and written, when the path was free or already such a file. *)
Lemma write_file_ok (path content : string) (w : Os.world) :
  Os.w_fs w !! path = None ∨ opens_rw path w →
  ∃ w1,
    write_file path content w = (Ok tt, w1)
    ∧ Os.w_fs w1 !! path = Some (Os.File content true true).
Proof.
  intros Hp.
  assert (Hc : ∃ fs', Os.open_check path Os.Mw (Os.w_fs w) = inr fs'
                      ∧ fs' !! path = Some (Os.File EmptyString true true)).
  { unfold Os.open_check, Os.permitted. simpl.
    destruct Hp as [Hn|(f & Hf & Hr & Hw)].
    - rewrite Hn. eexists. split; [reflexivity|]. apply lookup_insert_eq.
    - rewrite Hf, Hw. simpl. eexists. split; [reflexivity|].
      rewrite Hr. apply lookup_insert_eq. }
  destruct Hc as (fs' & Hc & Hl).
  unfold write_file. unfold mbind at 1. unfold M_bind.
  rewrite (open_default_eq _ _ _ _ _ mode_w_binary mode_w_binary_not_ate).
  unfold Os.fopen. rewrite Hc. cbv iota beta zeta.
  set (fd := fresh (dom (Os.w_fds w))). set (w1 := Os.log _ _).
  assert (Hd : Os.w_fds w1 !! fd = Some (Os.Ofd path 0 false true false))
    by apply lookup_insert_eq.
  destruct (write_at_start fd path content _ true true w1 Hd Hl)
    as (w2 & Hwr & Hfs & [d2 Hd2]).
  unfold at_scope_exit, mbind, M_bind. rewrite Hwr. cbv iota beta.
  unfold mret, M_ret. rewrite (fstream_dtor_open _ _ _ _ Hd2).
  eexists. split; [reflexivity|]. simpl. rewrite Hfs. apply lookup_insert_eq.
Qed.

(** ** C2 *)

(** C2, as stated, fails: [.env] exists and is readable, but is not
    writable; the handle built on it gives a stream that is not open, and
    the full read of that stream is empty, not the content. *)
Lemma handle_on_readable_file_counterexample :
  Os.w_fs world_read_only !! ".env" = Some (Os.File key_value true false)
  ∧ Os.f_may_read (Os.File key_value true false) = true
  ∧ ∃ io w1,
      IO_ctor ".env" world_read_only = (Ok io, w1)
      ∧ Ios.is_open (fst (IO_getFileStream io)) = false
      ∧ fst (read_all (fst (IO_getFileStream io)) w1) = Ok EmptyString
      ∧ fst (read_all (fst (IO_getFileStream io)) w1) ≠ Ok key_value.
Proof.
  split; [reflexivity|]. split; [reflexivity|].
  eexists _, _. split; [rewrite IO_ctor_eq; reflexivity|].
  split; [reflexivity|]. split; [reflexivity|]. discriminate.
Qed.

(** C2 (amended): for every path P whose file the process may both read
    and write, the handle built on P gives a stream that is open on P at
    offset 0 and whose full read is exactly the file's content; and if
    content C is first written to a path P that is new, or is such a
    file, then building a handle on P and reading it all returns exactly
    C. *)
Theorem handle_stream_reads_file (P : string) (w : Os.world) :
  (∀ f : Os.file,
     Os.w_fs w !! P = Some f →
     Os.f_may_read f = true →
     Os.f_may_write f = true →
     ∃ io w1 fd,
       IO_ctor P w = (Ok io, w1)
       ∧ Ios.fb_file (Ios.rdbuf (fst (IO_getFileStream io))) = Some fd
       ∧ Os.w_fds w1 !! fd = Some (Os.Ofd P 0 true true false)
       ∧ fst (read_all (fst (IO_getFileStream io)) w1) = Ok (Os.f_data f))
  ∧ (∀ C : string,
       Os.w_fs w !! P = None ∨ opens_rw P w →
       ∃ w1 w2,
         write_file P C w = (Ok tt, w1)
         ∧ getenv_at P w1 = (Ok C, w2)).
Proof.
  split.
  - intros f Hf Hr Hw.
    rewrite IO_ctor_eq, open_check_r_plus, Hf, Hr, Hw. cbn [andb]. cbv zeta.
    set (fd := fresh (dom (Os.w_fds w))). set (w1 := Os.log _ _).
    assert (Hd : Os.w_fds w1 !! fd = Some (Os.Ofd P 0 true true false))
      by apply lookup_insert_eq.
    exists (MkIO (Ios.MkFstream Ios.ios_init (Ios.MkFilebuf (Some fd)))), w1, fd.
    split; [reflexivity|]. split; [reflexivity|]. split; [exact Hd|].
    destruct (insert_streambuf_open fd _ f w1 Hd Hf eq_refl)
      as (buffer & Hins & Hstr).
    unfold read_all, mbind, M_bind. simpl. rewrite Hins. simpl.
    by rewrite Hstr, str_drop_0.
  - intros C Hp.
    destruct (write_file_ok P C w Hp) as (w1 & Hwf & Hl).
    exists w1. rewrite (getenv_at_ok _ _ _ Hl eq_refl eq_refl). eauto.
Qed.

Lemma handle_stream_reads_file_witness :
  (∃ io w1 fd,
     IO_ctor ".env" world_rw = (Ok io, w1)
     ∧ Ios.fb_file (Ios.rdbuf (fst (IO_getFileStream io))) = Some fd
     ∧ Os.w_fds w1 !! fd = Some (Os.Ofd ".env" 0 true true false)
     ∧ fst (read_all (fst (IO_getFileStream io)) w1) = Ok key_value)
  ∧ ∃ w1 w2,
      write_file ".env" "A=1" world_rw = (Ok tt, w1)
      ∧ getenv_at ".env" w1 = (Ok "A=1", w2).
Proof.
  destruct (handle_stream_reads_file ".env" world_rw) as [H1 H2]. split.
  - apply (H1 (Os.File key_value true true)); reflexivity.
  - apply (H2 "A=1"). right. exists (Os.File key_value true true).
    repeat split; reflexivity.
Defined.

(** * Further properties of the handle and the loader *)

Lemma read_all_open (i : Ios.ios) (fd : nat) (d : Os.ofd) (f : Os.file)
    (w : Os.world) :
  Os.w_fds w !! fd = Some d →
  Os.w_fs w !! Os.ofd_path d = Some f →
  Os.ofd_read d = true →
  read_all (Ios.MkFstream i (Ios.MkFilebuf (Some fd))) w
  = (Ok (str_drop (Os.ofd_pos d) (Os.f_data f)), snd (Os.read_to_eof fd w)).
Proof.
  intros Hd Hf Hr.
  destruct (insert_streambuf_open fd d f w Hd Hf Hr) as (buffer & Hins & Hstr).
  unfold read_all, mbind, M_bind. simpl. rewrite Hins. simpl. by rewrite Hstr.
Qed.

Lemma read_all_not_open (i : Ios.ios) (w : Os.world) :
  read_all (Ios.MkFstream i (Ios.MkFilebuf None)) w = (Ok EmptyString, w).
Proof. reflexivity. Qed.

Lemma read_to_eof_frame (fd : nat) (w : Os.world) :
  Os.w_fs (snd (Os.read_to_eof fd w)) = Os.w_fs w
  ∧ ∀ fd', fd' ≠ fd →
      Os.w_fds (snd (Os.read_to_eof fd w)) !! fd' = Os.w_fds w !! fd'.
Proof.
  unfold Os.read_to_eof.
  destruct (Os.w_fds w !! fd) as [d|]; [|by split].
  destruct (Os.w_fs w !! Os.ofd_path d) as [f|]; [|by split].
  destruct (Os.ofd_read d); [|by split].
  split; [reflexivity|]. intros fd' Hne. simpl. by rewrite lookup_insert_ne.
Qed.

(** X1: [getenv] never throws, in any state of the system. Either [.env]
    opens for reading and writing, and then the content comes back and
    nothing is printed; or it does not, and then the empty string comes
    back and the diagnostic, and only it, is printed. *)
Theorem getenv_outcome (w : Os.world) :
  ∃ w',
    (∃ f, Os.w_fs w !! ".env" = Some f
          ∧ Os.f_may_read f = true ∧ Os.f_may_write f = true
          ∧ getenv w = (Ok (Os.f_data f), w')
          ∧ Os.w_cout w' = Os.w_cout w)
    ∨ (¬ opens_rw ".env" w
       ∧ getenv w = (Ok EmptyString, w')
       ∧ Os.w_cout w' = Os.w_cout w +:+ diagnostic ".env").
Proof.
  unfold getenv.
  destruct (open_check_r_plus_cases ".env" (Os.w_fs w))
    as [[e He]|(f & Hf & Hr & Hw)].
  - rewrite (getenv_at_fail _ _ _ He). eexists. right.
    split; [|by split].
    intros (f & Hf & Hr & Hw).
    rewrite open_check_r_plus, Hf, Hr, Hw in He. discriminate.
  - rewrite (getenv_at_ok _ _ _ Hf Hr Hw). eexists. left.
    exists f. by repeat split.
Qed.

(** X2: the constructor never changes a file, for any path: it does not
    create a file that is missing and does not truncate one that is
    there, although it asks for write access. *)
Theorem IO_ctor_keeps_files (file_path : string) (w : Os.world) :
  Os.w_fs (snd (IO_ctor file_path w)) = Os.w_fs w.
Proof.
  rewrite IO_ctor_eq.
  destruct (Os.open_check file_path Os.Mr_plus (Os.w_fs w)) as [e|fs'] eqn:Hc;
    [reflexivity|].
  rewrite open_check_r_plus in Hc. simpl.
  destruct (Os.w_fs w !! file_path) as [f|]; [|discriminate].
  destruct (Os.f_may_read f && Os.f_may_write f); congruence.
Qed.

(** X3: whatever the state of the system, [getenv] closes every
    descriptor it obtains, exactly once, closes nothing that is not open,
    issues no write and no seek, and leaves the table of open descriptors
    as it found it. *)
Theorem getenv_resource_safe (w : Os.world) :
  ∃ t,
    Os.w_trace (snd (getenv w)) = Os.w_trace w ++ t
    ∧ closed t = opened t
    ∧ NoDup (closed t)
    ∧ bad_closes t = []
    ∧ written t = []
    ∧ Os.w_fds (snd (getenv w)) = Os.w_fds w.
Proof.
  unfold getenv.
  destruct (open_check_r_plus_cases ".env" (Os.w_fs w))
    as [[e He]|(f & Hf & Hr & Hw)].
  - rewrite (getenv_at_fail _ _ _ He). eexists. split; [reflexivity|].
    split; [reflexivity|]. split; [apply NoDup_nil_2|]. by repeat split.
  - rewrite (getenv_at_ok _ _ _ Hf Hr Hw). eexists. split; [reflexivity|].
    split; [reflexivity|]. split; [apply NoDup_singleton|]. by repeat split.
Qed.

(** X4: the constructor never throws, and the stream it leaves in the
    handle tells whether the open worked: either the stream is open, its
    state is good and nothing was printed, or it is not open, its state
    is [failbit] and the diagnostic was printed. The stream handed out by
    [getFileStream] carries the same state, so a caller can check it. *)
Theorem IO_ctor_stream_state (file_path : string) (w : Os.world) :
  ∃ io w',
    IO_ctor file_path w = (Ok io, w')
    ∧ Ios.fs_ios (fst (IO_getFileStream io)) = Ios.fs_ios (file_stream io)
    ∧ Ios.is_open (fst (IO_getFileStream io)) = Ios.is_open (file_stream io)
    ∧ ((Ios.is_open (file_stream io) = true
        ∧ Ios.rdstate (Ios.fs_ios (file_stream io)) = Ios.goodbit
        ∧ Os.w_cout w' = Os.w_cout w)
       ∨ (Ios.is_open (file_stream io) = false
          ∧ Ios.rdstate (Ios.fs_ios (file_stream io)) = Ios.failbit
          ∧ Os.w_cout w' = Os.w_cout w +:+ diagnostic file_path)).
Proof.
  rewrite IO_ctor_eq.
  destruct (Os.open_check file_path Os.Mr_plus (Os.w_fs w)) as [e|fs'].
  - eexists _, _. split; [reflexivity|]. split; [reflexivity|].
    split; [reflexivity|]. right. split; [reflexivity|].
    split; [reflexivity|]. unfold diagnostic. simpl. by rewrite !str_app_assoc.
  - eexists _, _. split; [reflexivity|]. split; [reflexivity|].
    split; [reflexivity|]. left. by repeat split.
Qed.

(** X5: asking a handle for its stream a second time gives a stream that
    is not open, whatever the handle held: reading it all yields the
    empty string and does not touch the system. *)
Theorem IO_getFileStream_twice (io : IO) (w : Os.world) :
  Ios.is_open (fst (IO_getFileStream (snd (IO_getFileStream io)))) = false
  ∧ read_all (fst (IO_getFileStream (snd (IO_getFileStream io)))) w
    = (Ok EmptyString, w)
  ∧ ∀ w2, IO_dtor (snd (IO_getFileStream (snd (IO_getFileStream io)))) w2
          = (Ok tt, w2).
Proof.
  destruct io as [[i fb]]. split; [reflexivity|]. split; [reflexivity|].
  intros w2. reflexivity.
Qed.

(** X6: two handles on the same file are independent: they hold different
    descriptors, and reading the whole file through one does not change
    what is read through the other. *)
Theorem two_handles_independent (P : string) (w : Os.world) (f : Os.file) :
  Os.w_fs w !! P = Some f →
  Os.f_may_read f = true →
  Os.f_may_write f = true →
  ∃ io1 w1 io2 w2 fd1 fd2 w3 w4,
    IO_ctor P w = (Ok io1, w1)
    ∧ IO_ctor P w1 = (Ok io2, w2)
    ∧ Ios.fb_file (Ios.rdbuf (file_stream io1)) = Some fd1
    ∧ Ios.fb_file (Ios.rdbuf (file_stream io2)) = Some fd2
    ∧ fd1 ≠ fd2
    ∧ read_all (fst (IO_getFileStream io1)) w2 = (Ok (Os.f_data f), w3)
    ∧ read_all (fst (IO_getFileStream io2)) w3 = (Ok (Os.f_data f), w4).
Proof.
  intros Hf Hr Hw.
  set (d := Os.Ofd P 0 true true false).
  set (fd1 := fresh (dom (Os.w_fds w))).
  set (w1 := Os.log (Os.SysOpen P Os.Mr_plus true (inr fd1))
               (Os.set_fds (<[fd1 := d]> (Os.w_fds w)) (Os.set_fs (Os.w_fs w) w))).
  set (fd2 := fresh (dom (Os.w_fds w1))).
  set (w2 := Os.log (Os.SysOpen P Os.Mr_plus true (inr fd2))
               (Os.set_fds (<[fd2 := d]> (Os.w_fds w1)) (Os.set_fs (Os.w_fs w1) w1))).
  assert (Hf1 : Os.w_fs w1 !! P = Some f) by exact Hf.
  assert (Hf2 : Os.w_fs w2 !! P = Some f) by exact Hf.
  assert (Hc1 : IO_ctor P w
                = (Ok (MkIO (Ios.MkFstream Ios.ios_init (Ios.MkFilebuf (Some fd1)))), w1))
    by (by rewrite IO_ctor_eq, open_check_r_plus, Hf, Hr, Hw).
  assert (Hc2 : IO_ctor P w1
                = (Ok (MkIO (Ios.MkFstream Ios.ios_init (Ios.MkFilebuf (Some fd2)))), w2))
    by (by rewrite IO_ctor_eq, open_check_r_plus, Hf1, Hr, Hw).
  assert (Hne : fd1 ≠ fd2).
  { intros Heq. pose proof (fresh_fd_unused (Os.w_fds w1)) as Hfresh.
    fold fd2 in Hfresh. rewrite <- Heq in Hfresh.
    unfold w1 in Hfresh. simpl in Hfresh.
    by rewrite lookup_insert_eq in Hfresh. }
  assert (Hd1 : Os.w_fds w2 !! fd1 = Some d).
  { unfold w2. simpl. rewrite lookup_insert_ne by done.
    apply lookup_insert_eq. }
  assert (Hd2 : Os.w_fds w2 !! fd2 = Some d) by apply lookup_insert_eq.
  destruct (read_to_eof_frame fd1 w2) as [Hfs3 Hfds3].
  eexists _, w1, _, w2, fd1, fd2, _, _.
  split; [exact Hc1|]. split; [exact Hc2|]. split; [reflexivity|].
  split; [reflexivity|]. split; [exact Hne|]. split.
  - unfold IO_getFileStream, Ios.move. simpl.
    by rewrite (read_all_open _ _ _ _ _ Hd1 Hf2 eq_refl).
  - assert (Hd3 : Os.w_fds (snd (Os.read_to_eof fd1 w2)) !! fd2 = Some d)
      by (by rewrite Hfds3).
    assert (Hf3 : Os.w_fs (snd (Os.read_to_eof fd1 w2)) !! P = Some f)
      by (by rewrite Hfs3).
    unfold IO_getFileStream, Ios.move. simpl.
    by rewrite (read_all_open _ _ _ _ _ Hd3 Hf3 eq_refl).
Qed.

Lemma two_handles_independent_witness :
  ∃ io1 w1 io2 w2 fd1 fd2 w3 w4,
    IO_ctor ".env" world_busy = (Ok io1, w1)
    ∧ IO_ctor ".env" w1 = (Ok io2, w2)
    ∧ Ios.fb_file (Ios.rdbuf (file_stream io1)) = Some fd1
    ∧ Ios.fb_file (Ios.rdbuf (file_stream io2)) = Some fd2
    ∧ fd1 ≠ fd2
    ∧ read_all (fst (IO_getFileStream io1)) w2 = (Ok key_value, w3)
    ∧ read_all (fst (IO_getFileStream io2)) w3 = (Ok key_value, w4).
Proof.
  apply (two_handles_independent ".env" world_busy
           (Os.File key_value true true)); reflexivity.
Defined.



(** X8: the stream taken out of a handle stays usable after the handle
    is gone: destroying the wrapper first changes nothing, the stream
    then still reads the whole file, and destroying the stream gives the
    descriptor back. *)
Theorem stream_outlives_handle (P : string) (w : Os.world) (f : Os.file) :
  Os.w_fs w !! P = Some f →
  Os.f_may_read f = true →
  Os.f_may_write f = true →
  ∃ io w1 w2 w3,
    IO_ctor P w = (Ok io, w1)
    ∧ IO_dtor (snd (IO_getFileStream io)) w1 = (Ok tt, w1)
    ∧ read_all (fst (IO_getFileStream io)) w1 = (Ok (Os.f_data f), w2)
    ∧ Ios.fstream_dtor (fst (IO_getFileStream io)) w2 = (Ok tt, w3)
    ∧ Os.w_fds w3 = Os.w_fds w
    ∧ Os.w_fs w3 = Os.w_fs w.
Proof.
  intros Hf Hr Hw.
  rewrite IO_ctor_eq, open_check_r_plus, Hf, Hr, Hw. cbn [andb]. cbv zeta.
  set (fd := fresh (dom (Os.w_fds w))). set (w1 := Os.log _ _).
  assert (Hd : Os.w_fds w1 !! fd = Some (Os.Ofd P 0 true true false))
    by apply lookup_insert_eq.
  assert (Hf1 : Os.w_fs w1 !! P = Some f) by exact Hf.
  eexists _, w1, _, _. split; [reflexivity|]. split; [reflexivity|].
  unfold IO_getFileStream, Ios.move. simpl.
  rewrite (read_all_open _ _ _ _ _ Hd Hf1 eq_refl). simpl.
  split; [reflexivity|].
  unfold Os.read_to_eof. rewrite Hd. cbn [Os.ofd_path Os.ofd_read Os.ofd_pos].
  rewrite Hf1. cbn [snd].
  erewrite fstream_dtor_open by apply lookup_insert_eq.
  split; [reflexivity|]. simpl. split; [|reflexivity].
  rewrite insert_insert_eq, delete_insert_eq.
  apply delete_id, fresh_fd_unused.
Qed.

Lemma stream_outlives_handle_witness :
  ∃ io w1 w2 w3,
    IO_ctor ".env" world_busy = (Ok io, w1)
    ∧ IO_dtor (snd (IO_getFileStream io)) w1 = (Ok tt, w1)
    ∧ read_all (fst (IO_getFileStream io)) w1 = (Ok key_value, w2)
    ∧ Ios.fstream_dtor (fst (IO_getFileStream io)) w2 = (Ok tt, w3)
    ∧ Os.w_fds w3 = Os.w_fds world_busy
    ∧ Os.w_fs w3 = Os.w_fs world_busy.
Proof.
  apply (stream_outlives_handle ".env" world_busy
           (Os.File key_value true true)); reflexivity.
Defined.

(** X9: nothing is cached: after a call of [getenv], whatever it found,
    new content written to [.env] is what the next call returns. *)
Theorem getenv_sees_update (C : string) (w : Os.world) :
  Os.w_fs w !! ".env" = None ∨ opens_rw ".env" w →
  ∃ w1 w2,
    write_file ".env" C (snd (getenv w)) = (Ok tt, w1)
    ∧ getenv w1 = (Ok C, w2).
Proof.
  intros Hp.
  assert (Hp' : Os.w_fs (snd (getenv w)) !! ".env" = None
                ∨ opens_rw ".env" (snd (getenv w))).
  { unfold opens_rw, getenv.
    by destruct (getenv_at_frame ".env" w) as [-> _]. }
  destruct (write_file_ok ".env" C _ Hp') as (w1 & Hwf & Hl).
  exists w1. unfold getenv at 2.
  rewrite (getenv_at_ok _ _ _ Hl eq_refl eq_refl). eauto.
Qed.

Lemma getenv_sees_update_witness :
  ∃ w1 w2,
    write_file ".env" "A=1" (snd (getenv world_no_file)) = (Ok tt, w1)
    ∧ getenv w1 = (Ok "A=1", w2).
Proof.
  apply (getenv_sees_update "A=1" world_no_file). left. reflexivity.
Defined.
